(** * sblookup: the command-line URL lookup tool (cmd/sblookup/main.go)

    A shallow embedding of [main]: the start-up checks, the scanning loop
    over standard input, the two blocks of the loop body (the error report
    and the verdict) and the final check of the scanner's error, with the
    variable [code] threaded through them as the source does.

    The Safe Browsing client is an external object: it is a parameter of
    the development (a state type with a constructor and a lookup method
    that returns a result list together with an optional error, as the Go
    signature [([][]URLThreat, error)] has it).  The model starts once
    [flag.Parse] has returned, with the values of the two flags; the
    lines it records on standard output and standard error are those
    that [main] itself writes. *)

From Stdlib Require Import String Ascii List ZArith Lia Bool.
Import ListNotations.

Open Scope string_scope.
Open Scope Z_scope.

(** ** Data *)

(** A Go [error] value, held by the text that [fmt] prints for it. *)
Definition error := string.

(** Modelled from the spec: the type declaration of [safebrowsing.URLThreat]
    is not part of the sources.  The spec describes a threat match as an
    opaque record (threat type, platform, entry type) that is only rendered
    for display, and gives the rendering of one match on the pattern
    [bad1url.org], the one the package comment of main.go shows as well;
    the record below has these four fields, each kept by the text that is
    printed for it. *)
Record URLThreat := {
  Pattern : string;
  ThreatType : string;
  PlatformType : string;
  ThreatEntryType : string
}.

(** [fmt]'s default rendering of a struct value and of a slice of them:
    fields between braces and elements between brackets, separated by one
    space. *)
Definition show_threat (t : URLThreat) : string :=
  "{" ++ Pattern t ++ " {" ++ ThreatType t ++ " " ++ PlatformType t
      ++ " " ++ ThreatEntryType t ++ "}}".

Definition show_threats (ts : list URLThreat) : string :=
  "[" ++ String.concat " " (map show_threat ts) ++ "]".

(** [fmt.Fprintln w a b]: the operands separated by a space; the line
    terminator is left implicit, an output being a list of lines. *)
Definition Fprintln (a b : string) : string := a ++ " " ++ b.

(** [safebrowsing.Config] as [main] fills it; [Logger] is always
    [os.Stderr], and what the client logs there is not recorded: the
    [Stderr] events below are the lines that [main] writes. *)
Record Config := { APIKey : string; DBPath : string }.

(** What [LookupURLs] returns: the per-URL match lists and the error. *)
Record response := {
  threats : list (list URLThreat);
  err : option error
}.

(** [bufio.Scanner] over standard input: the lines that [Scan] will
    deliver, terminators stripped, and the error that [Err] reports once
    [Scan] has returned false ([None] at a clean end of stream). *)
Record Scanner := {
  pending : list string;
  failure : option error
}.

(** What a run does, in the order it does it. *)
Inductive event :=
| Scan (url : string)
| Lookup (urls : list string) (r : response)
| Stdout (line : string)
| Stderr (line : string).

(** How the process ends: [os.Exit code], or the run-time panic of an
    index out of range. *)
Inductive termination :=
| Exit (code : Z)
| Panic.

(** A run: its events, the values the variable [code] has after its
    initialisation and after each of the guarded updates that the run
    executes, and the way the process ends. *)
Record run := {
  trace : list event;
  codes : list Z;
  status : termination
}.

(** The exit codes of the usage text. *)
Definition documented (t : termination) : Prop :=
  match t with
  | Exit c => c = 0 \/ c = 1 \/ c = 128
  | Panic => False
  end.

(** ** Projections of a trace *)

Definition stdout_of (tr : list event) : list string :=
  flat_map (fun e => match e with Stdout l => [l] | _ => [] end) tr.

Definition stderr_of (tr : list event) : list string :=
  flat_map (fun e => match e with Stderr l => [l] | _ => [] end) tr.

Definition scans_of (tr : list event) : list string :=
  flat_map (fun e => match e with Scan u => [u] | _ => [] end) tr.

Definition lookups_of (tr : list event) : list (list string * response) :=
  flat_map (fun e => match e with Lookup us r => [(us, r)] | _ => [] end) tr.

Definition responses_of (tr : list event) : list response :=
  map snd (lookups_of tr).

(** ** The guarded updates of [code] *)

(** [if code != 0 { code = 128 }], in the error block and after the loop. *)
Definition failed_code (code : Z) : Z :=
  if negb (code =? 0) then 128 else code.

(** [if code != 0 { code = 1 }], in the unsafe branch. *)
Definition unsafe_code (code : Z) : Z :=
  if negb (code =? 0) then 1 else code.

(** ** Classification of a response *)

(** [threats[0]] exists. *)
Definition has_result (r : response) : bool :=
  match threats r with [] => false | _ :: _ => true end.

(** The lookup succeeded and the match list of the URL is empty. *)
Definition safe_response (r : response) : bool :=
  match err r, threats r with
  | None, [] :: _ => true
  | _, _ => false
  end.

(** ** The program *)

(** The state of the loop after an iteration, or the panic that ended it;
    either way with the events and the values of [code] it produced. *)
Inductive flow (S : Type) :=
| Next (code : Z) (sb : S) (evs : list event) (cs : list Z)
| Crash (evs : list event) (cs : list Z).
Arguments Next {S} code sb evs cs.
Arguments Crash {S} evs cs.

Definition prepend {S} (evs : list event) (cs : list Z) (f : flow S) : flow S :=
  match f with
  | Next code sb evs' cs' => Next code sb (evs ++ evs') (cs ++ cs')
  | Crash evs' cs' => Crash (evs ++ evs') (cs ++ cs')
  end.

(** The error block of the loop body: [if err != nil { ... }]. *)
Definition error_block (code : Z) (r : response) : Z * list event * list Z :=
  match err r with
  | Some e =>
      let code' := failed_code code in
      (code', [Stderr (Fprintln "Lookup error:" e)], [code'])
  | None => (code, [], [])
  end.

(** The verdict block: [if len(threats[0]) == 0 { ... } else { ... }];
    [None] is the panic of [threats[0]] on an empty result list. *)
Definition verdict_block (code : Z) (url : string) (r : response)
  : option (Z * list event * list Z) :=
  match threats r with
  | [] => None
  | t0 :: _ =>
      if (length t0 =? 0)%nat
      then Some (code, [Stdout (Fprintln "Safe URL:" url)], [])
      else
        let code' := unsafe_code code in
        Some (code', [Stdout (Fprintln "Unsafe URL:" (show_threats t0))], [code'])
  end.

Section Program.

(** The Safe Browsing client: its state, [NewSafeBrowser] and
    [LookupURLs]. *)
Variable SafeBrowser : Type.
Variable NewSafeBrowser : Config -> SafeBrowser + error.
Variable LookupURLs : SafeBrowser -> list string -> response * SafeBrowser.

(** One iteration of [for scanner.Scan() { ... }] on the line [url]. *)
Definition body (sb : SafeBrowser) (code : Z) (url : string)
  : flow SafeBrowser :=
  let '(r, sb') := LookupURLs sb [url] in
  let '(code1, evs1, cs1) := error_block code r in
  match verdict_block code1 url r with
  | None => Crash ([Scan url; Lookup [url] r] ++ evs1) cs1
  | Some (code2, evs2, cs2) =>
      Next code2 sb' ([Scan url; Lookup [url] r] ++ evs1 ++ evs2) (cs1 ++ cs2)
  end.

(** The loop, over the lines the scanner delivers. *)
Fixpoint loop (sb : SafeBrowser) (lines : list string) (code : Z)
  : flow SafeBrowser :=
  match lines with
  | [] => Next code sb [] []
  | url :: rest =>
      match body sb code url with
      | Crash evs cs => Crash evs cs
      | Next code' sb' evs cs => prepend evs cs (loop sb' rest code')
      end
  end.

(** The end of [main]: [scanner.Err()] and [os.Exit(code)]. *)
Definition finish (code : Z) (stdin : Scanner) : run :=
  match failure stdin with
  | Some e =>
      let code' := failed_code code in
      {| trace := [Stderr (Fprintln "Unable to read input:" e)];
         codes := [code'];
         status := Exit code' |}
  | None => {| trace := []; codes := []; status := Exit code |}
  end.

(** A fatal start-up error: one line on standard error and [os.Exit(1)]. *)
Definition fatal (line : string) : run :=
  {| trace := [Stderr line]; codes := []; status := Exit 1 |}.

Definition main (apiKeyFlag databaseFlag : string) (stdin : Scanner) : run :=
  if (apiKeyFlag =? "")%string then fatal "No -apikey specified"
  else
    match NewSafeBrowser {| APIKey := apiKeyFlag; DBPath := databaseFlag |} with
    | inr e =>
        fatal (Fprintln "Unable to initialize Safe Browsing client: " e)
    | inl sb =>
        match loop sb (pending stdin) 0 with
        | Crash evs cs =>
            {| trace := evs; codes := 0 :: cs; status := Panic |}
        | Next code _ evs cs =>
            let r := finish code stdin in
            {| trace := evs ++ trace r;
               codes := 0 :: cs ++ codes r;
               status := status r |}
        end
    end.

(** The run passes start-up: a key is given and the client is built. *)
Definition starts (apiKeyFlag databaseFlag : string) : Prop :=
  apiKeyFlag <> "" /\
  exists sb, NewSafeBrowser {| APIKey := apiKeyFlag; DBPath := databaseFlag |} = inl sb.

End Program.

(** ** A scripted client, for concrete runs *)

(** The client answers the successive calls with the responses of a
    script; past its end it reports no match. *)
Definition scripted_lookup (s : list response) (urls : list string)
  : response * list response :=
  match s with
  | r :: s' => (r, s')
  | [] => ({| threats := map (fun _ => []) urls; err := None |}, [])
  end.

Definition scripted_main (s : list response) :=
  main (list response) (fun _ => inl s) scripted_lookup.

Definition malware : URLThreat :=
  {| Pattern := "bad1url.org"; ThreatType := "MALWARE";
     PlatformType := "ANY_PLATFORM"; ThreatEntryType := "URL_EXPRESSION" |}.

Definition stdin_of (ls : list string) : Scanner :=
  {| pending := ls; failure := None |}.

(** Two scripts used below. *)
Definition two_safe : list response :=
  [ {| threats := [[]]; err := None |}; {| threats := [[]]; err := None |} ].

Definition failed_then_unsafe : list response :=
  [ {| threats := [[malware]]; err := Some "boom" |};
    {| threats := [[malware]]; err := None |} ].




Definition safe_then_missing : list response :=
  [ {| threats := [[]]; err := None |};
    {| threats := []; err := Some "boom" |} ].

Definition three_lines : Scanner :=
  stdin_of ["https://google.com"; "http://x.test"; "http://bad1url.org"].

Definition two_lines_then_read_error : Scanner :=
  {| pending := ["http://bad1url.org"; "http://bad1url.org"];
     failure := Some "read failed" |}.

(** ** What an iteration contributes *)

(** The stdout lines that the spec attributes to one processed line: one
    verdict, from the first match list of the response; nothing when the
    response holds no match list. *)
Definition verdict_lines (it : string * response) : list string :=
  match threats (snd it) with
  | [] => []
  | [] :: _ => ["Safe URL: " ++ fst it]
  | (t :: ts) :: _ => ["Unsafe URL: " ++ show_threats (t :: ts)]
  end.

Definition events_of {S} (f : flow S) : list event :=
  match f with Next _ _ evs _ => evs | Crash evs _ => evs end.

Definition codes_of {S} (f : flow S) : list Z :=
  match f with Next _ _ _ cs => cs | Crash _ cs => cs end.

Definition crashed {S} (f : flow S) : bool :=
  match f with Next _ _ _ _ => false | Crash _ _ => true end.

(** The value of [code] with which the loop goes on; a crashed loop keeps
    none, and [0] stands for it. *)
Definition code_of {S} (f : flow S) : Z :=
  match f with Next c _ _ _ => c | Crash _ _ => 0 end.

(** The stderr lines that one response brings about: the diagnostic of
    its error, if it has one. *)
Definition error_lines (r : response) : list string :=
  match err r with
  | Some e => ["Lookup error: " ++ e]
  | None => []
  end.

(** The calls that a client receives when the URLs [us] are looked up one
    by one, each call on the state that the previous one left, and what it
    answers to each. *)
Fixpoint calls {S} (LookupURLs : S -> list string -> response * S)
    (sb : S) (us : list string) : list (list string * response) :=
  match us with
  | [] => []
  | u :: us' =>
      let '(r, sb') := LookupURLs sb [u] in
      ([u], r) :: calls LookupURLs sb' us'
  end.

(** The state of the client once the loop is over; a crashed loop keeps
    none, and the state it was entered with stands for it. *)
Definition client_of {S} (sb0 : S) (f : flow S) : S :=
  match f with Next _ sb _ _ => sb | Crash _ _ => sb0 end.

(** A stdout line is a safe verdict, or an unsafe one. *)
Definition is_safe_line (l : string) : bool := String.prefix "Safe URL: " l.
Definition is_unsafe_line (l : string) : bool := String.prefix "Unsafe URL: " l.

(** ** Projections and concatenation *)

Lemma stdout_of_app a b : stdout_of (a ++ b)%list = (stdout_of a ++ stdout_of b)%list.
Proof. apply flat_map_app. Qed.

Lemma stderr_of_app a b : stderr_of (a ++ b)%list = (stderr_of a ++ stderr_of b)%list.
Proof. apply flat_map_app. Qed.

Lemma scans_of_app a b : scans_of (a ++ b)%list = (scans_of a ++ scans_of b)%list.
Proof. apply flat_map_app. Qed.

Lemma lookups_of_app a b : lookups_of (a ++ b)%list = (lookups_of a ++ lookups_of b)%list.
Proof. apply flat_map_app. Qed.

Lemma responses_of_app a b :
  responses_of (a ++ b)%list = (responses_of a ++ responses_of b)%list.
Proof. unfold responses_of. now rewrite lookups_of_app, map_app. Qed.

Lemma events_of_prepend {S} evs cs (f : flow S) :
  events_of (prepend evs cs f) = (evs ++ events_of f)%list.
Proof. now destruct f. Qed.

Lemma codes_of_prepend {S} evs cs (f : flow S) :
  codes_of (prepend evs cs f) = (cs ++ codes_of f)%list.
Proof. now destruct f. Qed.

Lemma crashed_prepend {S} evs cs (f : flow S) :
  crashed (prepend evs cs f) = crashed f.
Proof. now destruct f. Qed.

Lemma code_of_prepend {S} evs cs (f : flow S) :
  code_of (prepend evs cs f) = code_of f.
Proof. now destruct f. Qed.

Create Rewrite HintDb proj.

#[local] Hint Rewrite stdout_of_app stderr_of_app scans_of_app
  lookups_of_app responses_of_app
  @events_of_prepend @codes_of_prepend @crashed_prepend @code_of_prepend
  : proj.

(** ** The guarded updates never leave zero *)

Lemma failed_code_zero : failed_code 0 = 0.
Proof. reflexivity. Qed.

Lemma unsafe_code_zero : unsafe_code 0 = 0.
Proof. reflexivity. Qed.

Lemma unsafe_code_idem c : unsafe_code (unsafe_code c) = unsafe_code c.
Proof. unfold unsafe_code. now destruct (c =? 0) eqn:E; cbn; rewrite ?E. Qed.

Lemma combine_app {A B} (l1 l2 : list A) (m1 m2 : list B) :
  length l1 = length m1 ->
  combine (l1 ++ l2) (m1 ++ m2) = (combine l1 m1 ++ combine l2 m2)%list.
Proof.
  revert m1; induction l1 as [|a l1 IH]; intros [|b m1] H; cbn in *;
    try discriminate; [reflexivity|].
  f_equal. apply IH. now injection H.
Qed.

(** ** One iteration, and the loop *)

Section Properties.

Context {S : Type}.
Variable NewSafeBrowser : Config -> S + error.
Variable LookupURLs : S -> list string -> response * S.

Local Abbreviation body := (body S LookupURLs).
Local Abbreviation loop := (loop S LookupURLs).
Local Abbreviation main := (main S NewSafeBrowser LookupURLs).
Local Abbreviation starts := (starts S NewSafeBrowser).

(** What one iteration emits, whatever the client answers. *)
Lemma body_shape sb code url :
  let r := fst (LookupURLs sb [url]) in
  let f := body sb code url in
  scans_of (events_of f) = [url]
  /\ lookups_of (events_of f) = [([url], r)]
  /\ stdout_of (events_of f) = verdict_lines (url, r)
  /\ stderr_of (events_of f) =
       match err r with
       | Some e => [Fprintln "Lookup error:" e]
       | None => []
       end
  /\ crashed f = negb (has_result r).
Proof.
  unfold body, has_result.
  destruct (LookupURLs sb [url]) as [[ths e] sb'].
  destruct e, ths as [|[|t ts] ths]; cbn; repeat split; reflexivity.
Qed.

(** An iteration entered with [code = 0] leaves it at [0]. *)
Lemma body_zero sb url :
  Forall (eq 0) (codes_of (body sb 0 url)) /\ code_of (body sb 0 url) = 0.
Proof.
  unfold body.
  destruct (LookupURLs sb [url]) as [[ths e] sb'].
  destruct e, ths as [|[|t ts] ths]; cbn; split;
    repeat constructor.
Qed.

(** The loop on a concatenation: the first part, then the second part
    from the state the first one leaves. *)
Lemma loop_app l1 l2 sb code :
  loop sb (l1 ++ l2) code =
  match loop sb l1 code with
  | Next code' sb' evs cs => prepend evs cs (loop sb' l2 code')
  | Crash evs cs => Crash evs cs
  end.
Proof.
  revert sb code; induction l1 as [|u l1 IH]; intros sb code; cbn.
  - now destruct (loop sb l2 code).
  - destruct (body sb code u) as [c1 sb1 e1 cs1|e1 cs1]; [|reflexivity].
    rewrite IH.
    destruct (loop sb1 l1 c1) as [c2 sb2 e2 cs2|e2 cs2]; cbn; [|reflexivity].
    destruct (loop sb2 l2 c2); cbn; now rewrite !app_assoc.
Qed.

Lemma loop_zero ls : forall sb,
  Forall (eq 0) (codes_of (loop sb ls 0)) /\ code_of (loop sb ls 0) = 0.
Proof.
  induction ls as [|u ls IH]; intros sb; cbn.
  - now split.
  - destruct (body_zero sb u) as [Hc Hn].
    destruct (body sb 0 u) as [c1 sb1 e1 cs1|e1 cs1]; cbn in *; [|now split].
    subst c1. destruct (IH sb1) as [Hc' Hn'].
    autorewrite with proj. split; [|assumption].
    apply Forall_app; now split.
Qed.

(** The events of the loop: the lines are scanned in input order, each
    scan has its lookup, the output is the verdicts in that order, and
    the loop stops early exactly when a response holds no match list. *)
Lemma loop_shape ls : forall sb code,
  let evs := events_of (loop sb ls code) in
  scans_of evs = firstn (length (scans_of evs)) ls
  /\ map fst (lookups_of evs) = map (fun u => [u]) (scans_of evs)
  /\ stdout_of evs =
       flat_map verdict_lines (combine (scans_of evs) (responses_of evs))
  /\ crashed (loop sb ls code) = negb (forallb has_result (responses_of evs))
  /\ (crashed (loop sb ls code) = false -> scans_of evs = ls).
Proof.
  induction ls as [|u ls IH]; intros sb code; cbn zeta.
  - cbn. repeat split; reflexivity.
  - cbn [loop].
    destruct (body_shape sb code u) as (Hs & Hl & Ho & _ & Hc).
    cbn zeta in *.
    set (r := fst (LookupURLs sb [u])) in *.
    assert (Hr : responses_of (events_of (body sb code u)) = [r])
      by (unfold responses_of; now rewrite Hl).
    destruct (body sb code u) as [c1 sb1 e1 cs1|e1 cs1]; cbn [events_of crashed] in Hs, Hl, Ho, Hc, Hr.
    + destruct (IH sb1 c1) as (Is & Il & Io & Ic & If). cbn zeta in *.
      autorewrite with proj.
      rewrite Hs, Hl, Ho, Hr. cbn [app length firstn map combine flat_map forallb].
      assert (Hh : has_result r = true)
        by (destruct (has_result r); [reflexivity | discriminate]).
      rewrite Hh. cbn [andb].
      repeat split.
      * f_equal. exact Is.
      * f_equal. exact Il.
      * f_equal. exact Io.
      * exact Ic.
      * intros H. f_equal. now apply If.
    + cbn [events_of crashed].
      rewrite Hs, Hl, Ho, Hr. cbn [app length firstn map combine flat_map forallb].
      rewrite app_nil_r.
      repeat split; try reflexivity.
      * symmetry in Hc. apply negb_true_iff in Hc. now rewrite Hc.
      * discriminate.
Qed.

(** ** Whole runs *)

Lemma main_fatal_key db stdin :
  main "" db stdin = fatal "No -apikey specified".
Proof. reflexivity. Qed.

Lemma main_started k db stdin sb :
  k <> "" ->
  NewSafeBrowser {| APIKey := k; DBPath := db |} = inl sb ->
  main k db stdin =
  match loop sb (pending stdin) 0 with
  | Crash evs cs => {| trace := evs; codes := 0 :: cs; status := Panic |}
  | Next code _ evs cs =>
      let r := finish code stdin in
      {| trace := evs ++ trace r;
         codes := 0 :: cs ++ codes r;
         status := status r |}
  end.
Proof.
  intros Hk Hn. unfold main.
  destruct (String.eqb_spec k "") as [E|_]; [contradiction|].
  now rewrite Hn.
Qed.

Lemma finish_zero stdin :
  Forall (eq 0) (codes (finish 0 stdin))
  /\ status (finish 0 stdin) = Exit 0
  /\ scans_of (trace (finish 0 stdin)) = []
  /\ lookups_of (trace (finish 0 stdin)) = []
  /\ stdout_of (trace (finish 0 stdin)) = [].
Proof.
  unfold finish. destruct (failure stdin); cbn; repeat split;
    repeat constructor.
Qed.

(** Every run that passes start-up: [code] is [0] throughout, the trace
    has the shape of the loop's, and the process ends by [os.Exit(0)]
    unless a response without a match list made [threats[0]] panic. *)
Lemma main_shape k db stdin :
  starts k db ->
  let R := main k db stdin in
  (exists cs, codes R = 0 :: cs /\ Forall (eq 0) cs)
  /\ scans_of (trace R) = firstn (length (scans_of (trace R))) (pending stdin)
  /\ map fst (lookups_of (trace R)) = map (fun u => [u]) (scans_of (trace R))
  /\ stdout_of (trace R) =
       flat_map verdict_lines
         (combine (scans_of (trace R)) (responses_of (trace R)))
  /\ status R =
       (if forallb has_result (responses_of (trace R)) then Exit 0 else Panic)
  /\ (status R <> Panic -> scans_of (trace R) = pending stdin).
Proof.
  intros [Hk [sb Hn]]. cbn zeta. rewrite (main_started _ _ _ _ Hk Hn).
  destruct (loop_zero (pending stdin) sb) as [Hc Hz].
  destruct (loop_shape (pending stdin) sb 0) as (Hs & Hl & Ho & Hp & Hf).
  cbn zeta in *.
  destruct (loop sb (pending stdin) 0) as [c sb' evs cs|evs cs];
    cbn [events_of codes_of code_of crashed] in *.
  - subst c.
    destruct (finish_zero stdin) as (Fc & Fs & Fn & Fl & Fo).
    cbn [trace codes status]. unfold responses_of in *.
    autorewrite with proj. rewrite Fn, Fl, Fo, Fs, !app_nil_r.
    symmetry in Hp. apply negb_false_iff in Hp. rewrite Hp.
    repeat split; auto.
    exists (cs ++ codes (finish 0 stdin))%list. split; [reflexivity|].
    apply Forall_app; now split.
  - cbn [trace codes status].
    symmetry in Hp. apply negb_true_iff in Hp. rewrite Hp.
    repeat split; auto.
    + now exists cs.
    + intros H; now elim H.
Qed.

(** ** Safe URLs *)

Lemma safe_has_result r : safe_response r = true -> has_result r = true.
Proof.
  unfold safe_response, has_result.
  destruct (err r), (threats r) as [|[|t ts] ths]; intros H;
    try discriminate; reflexivity.
Qed.

Lemma safe_verdicts us : forall rs,
  length rs = length us ->
  forallb safe_response rs = true ->
  flat_map verdict_lines (combine us rs) =
  map (fun u => "Safe URL: " ++ u) us.
Proof.
  induction us as [|u us IH]; intros [|r rs] Hl Hs; cbn in *;
    try discriminate; [reflexivity|].
  apply andb_true_iff in Hs as [Hr Hs].
  rewrite IH by (auto; now injection Hl). f_equal.
  unfold verdict_lines, safe_response in *. cbn.
  destruct (err r), (threats r) as [|[|t ts] ths]; try discriminate.
  reflexivity.
Qed.

Lemma lookups_aligned (tr : list event) :
  map fst (lookups_of tr) = map (fun u => [u]) (scans_of tr) ->
  length (responses_of tr) = length (scans_of tr).
Proof.
  intros H. unfold responses_of.
  rewrite length_map, <- (length_map fst), H. apply length_map.
Qed.

(** C6. A URL whose lookup succeeds with an empty match list prints
    exactly the stdout line "Safe URL: <url>" (and nothing else), and the
    loop goes on with the next line from the same value of [code]: the
    run outcome is unchanged by that URL.  Consequently a run that passes
    start-up and in which every lookup made is of this kind prints one
    such line per input line and exits with code 0; a run on an empty
    input stream prints nothing and exits with code 0. *)
Theorem safe_url_keeps_outcome :
  (forall sb code url rest,
      safe_response (fst (LookupURLs sb [url])) = true ->
      loop sb (url :: rest) code =
      prepend
        [Scan url; Lookup [url] (fst (LookupURLs sb [url]));
         Stdout ("Safe URL: " ++ url)] []
        (loop (snd (LookupURLs sb [url])) rest code))
  /\ (forall k db stdin,
      starts k db ->
      forallb safe_response (responses_of (trace (main k db stdin))) = true ->
      status (main k db stdin) = Exit 0
      /\ stdout_of (trace (main k db stdin)) =
         map (fun u => "Safe URL: " ++ u) (pending stdin))
  /\ (forall k db,
      starts k db ->
      main k db (stdin_of []) = {| trace := []; codes := [0]; status := Exit 0 |}).
Proof.
  split; [|split].
  - intros sb code url rest H. cbn [loop]. unfold body.
    destruct (LookupURLs sb [url]) as [[ths e] sb']. cbn [fst snd] in *.
    unfold safe_response in H. cbn in H.
    destruct e, ths as [|[|t ts] ths]; try discriminate. reflexivity.
  - intros k db stdin Hst Hsafe.
    destruct (main_shape k db stdin Hst) as (_ & _ & Hl & Ho & Hx & Hf).
    cbn zeta in *.
    assert (Hres : forallb has_result
                     (responses_of (trace (main k db stdin))) = true).
    { apply forallb_forall. intros r Hr. apply safe_has_result.
      now apply (proj1 (forallb_forall _ _) Hsafe). }
    rewrite Hres in Hx. split; [exact Hx|].
    rewrite Ho, safe_verdicts; auto using lookups_aligned.
    f_equal. apply Hf. rewrite Hx. discriminate.
  - intros k db [Hk [sb Hn]]. now rewrite (main_started _ _ _ _ Hk Hn).
Qed.

(** ** Lookup errors *)

(** C10. When the lookup returns an error together with a result list
    whose first element is non-empty, the iteration writes both the
    diagnostic "Lookup error: <error>" on standard error and then the
    verdict "Unsafe URL: <matches>" on standard output for the same URL:
    the error block does not skip the verdict block, and the loop goes
    on with the next line. *)
Theorem error_does_not_skip_verdict sb sb' code url rest e t ts ths :
  LookupURLs sb [url] =
    ({| threats := (t :: ts) :: ths; err := Some e |}, sb') ->
  loop sb (url :: rest) code =
  prepend
    [Scan url;
     Lookup [url] {| threats := (t :: ts) :: ths; err := Some e |};
     Stderr ("Lookup error: " ++ e);
     Stdout ("Unsafe URL: " ++ show_threats (t :: ts))]
    [failed_code code; unsafe_code (failed_code code)]
    (loop sb' rest (unsafe_code (failed_code code))).
Proof.
  intros H. cbn [loop]. unfold body. rewrite H.
  reflexivity.
Qed.

(** ** Start-up *)

(** C7. If the [-apikey] flag is empty, or the construction of the
    client fails, the run consists of one diagnostic line on standard
    error and [os.Exit(1)]: no line is scanned, no lookup is made and
    nothing is written on standard output. *)
Theorem startup_failure_is_fatal k db stdin :
  (k = "" \/ exists e, NewSafeBrowser {| APIKey := k; DBPath := db |} = inr e) ->
  let R := main k db stdin in
  status R = Exit 1
  /\ scans_of (trace R) = []
  /\ lookups_of (trace R) = []
  /\ stdout_of (trace R) = []
  /\ ((k = "" /\ trace R = [Stderr "No -apikey specified"])
      \/ (k <> "" /\ exists e,
            NewSafeBrowser {| APIKey := k; DBPath := db |} = inr e
            /\ trace R =
               [Stderr ("Unable to initialize Safe Browsing client:  " ++ e)])).
Proof.
  intros H. cbn zeta.
  destruct (String.eqb_spec k "") as [E|N].
  - subst k. rewrite main_fatal_key. cbn. repeat split. now left.
  - destruct H as [H|[e H]]; [contradiction|].
    unfold main. destruct (String.eqb_spec k "") as [E|_];
      [contradiction|].
    rewrite H. cbn. repeat split. right. split; [assumption|].
    now exists e.
Qed.

(** ** Order of the output *)

Lemma has_result_verdict it :
  length (verdict_lines it) = if has_result (snd it) then 1%nat else 0%nat.
Proof.
  unfold has_result, verdict_lines.
  now destruct (threats (snd it)) as [|[|t ts] ths].
Qed.

(** X10. In a run that passes start-up the lines are processed in input
    order: the lines scanned are an initial segment of the input (all of
    it unless the run panics), each has its own lookup, and standard
    output is the concatenation, in that order, of what each processed
    line contributes.  A line contributes exactly one stdout line when its
    lookup returned a result list with an entry, with or without an
    error, and none when the result list is empty: so of two lines that
    both produce output the earlier one is printed first, and no URL has
    more than one stdout line. *)
Theorem stdout_in_input_order k db stdin :
  starts k db ->
  let R := main k db stdin in
  let its := combine (scans_of (trace R)) (responses_of (trace R)) in
  scans_of (trace R) = firstn (length (scans_of (trace R))) (pending stdin)
  /\ (status R = Panic \/ scans_of (trace R) = pending stdin)
  /\ length (responses_of (trace R)) = length (scans_of (trace R))
  /\ stdout_of (trace R) = flat_map verdict_lines its
  /\ Forall (fun it =>
               length (verdict_lines it) =
               if has_result (snd it) then 1%nat else 0%nat) its.
Proof.
  intros Hst. cbn zeta.
  destruct (main_shape k db stdin Hst) as (_ & Hs & Hl & Ho & Hx & Hf).
  cbn zeta in *. repeat split; auto using lookups_aligned.
  - destruct (status (main k db stdin)) eqn:E; [right|now left].
    apply Hf. discriminate.
  - apply Forall_forall. intros it _. apply has_result_verdict.
Qed.

(** ** The exit code *)

(** C9 (amended). In every run that passes start-up the variable [code]
    is 0 after its initialisation and after each guarded update the run
    executes, since each update is guarded by [code != 0]; and every such
    run in which each lookup returns a result list with an entry for the
    URL ends by [os.Exit(0)]. *)
Theorem code_stays_zero k db stdin :
  starts k db ->
  let R := main k db stdin in
  (exists cs, codes R = 0 :: cs)
  /\ Forall (eq 0) (codes R)
  /\ (forallb has_result (responses_of (trace R)) = true ->
      status R = Exit 0).
Proof.
  intros Hst. cbn zeta.
  destruct (main_shape k db stdin Hst) as ((cs & Hc & Hz) & _ & _ & _ & Hx & _).
  cbn zeta in *. repeat split.
  - now exists cs.
  - rewrite Hc. now constructor.
  - intros H. now rewrite H in Hx.
Qed.

End Properties.

(** ** The aggregation of the exit code *)

(** The update of the unsafe branch would take a [code] of 128 down to 1;
    no run gets there, [code] being 0 throughout. *)
Remark unsafe_code_after_failure : unsafe_code 128 = 1.
Proof. reflexivity. Qed.

(** ** Concrete runs *)

Lemma scripted_starts (s : list response) k db :
  k <> "" -> starts (list response) (fun _ => inl s) k db.
Proof. intros H. split; [assumption|]. now exists s. Defined.

Lemma key_given : "k" <> "".
Proof. discriminate. Defined.

(** C1. On the input line [http://bad1url.org], for which the lookup
    succeeds with one match, the run prints the single verdict line
    "Unsafe URL: [{bad1url.org {MALWARE ANY_PLATFORM URL_EXPRESSION}}]"
    and ends by [os.Exit(0)], not with an exit code of at least 1. *)
Theorem unsafe_url_exits_zero :
  scripted_main [ {| threats := [[malware]]; err := None |} ]
    "k" "" (stdin_of ["http://bad1url.org"]) =
  {| trace :=
       [Scan "http://bad1url.org";
        Lookup ["http://bad1url.org"] {| threats := [[malware]]; err := None |};
        Stdout "Unsafe URL: [{bad1url.org {MALWARE ANY_PLATFORM URL_EXPRESSION}}]"];
     codes := [0; 0];
     status := Exit 0 |}.
Proof. reflexivity. Qed.

(** C2. On two input lines, the lookup of the first returning an error
    (with an empty match list for the URL), the run writes the diagnostic
    "Lookup error: boom" on standard error, then still prints a verdict
    line for that URL, goes on with the second line, and ends by
    [os.Exit(0)], not with exit code 128. *)
Theorem lookup_error_exits_zero :
  scripted_main
    [ {| threats := [[]]; err := Some "boom" |};
      {| threats := [[]]; err := None |} ]
    "k" "" (stdin_of ["http://x.test"; "https://google.com"]) =
  {| trace :=
       [Scan "http://x.test";
        Lookup ["http://x.test"] {| threats := [[]]; err := Some "boom" |};
        Stderr "Lookup error: boom";
        Stdout "Safe URL: http://x.test";
        Scan "https://google.com";
        Lookup ["https://google.com"] {| threats := [[]]; err := None |};
        Stdout "Safe URL: https://google.com"];
     codes := [0; 0];
     status := Exit 0 |}.
Proof. reflexivity. Qed.

(** C4. When the lookup returns an error and no result list, the run
    writes the diagnostic and then panics on [threats[0]]: it does not
    end with one of the exit codes 0, 1 and 128, and the line that
    follows is never read. *)
Theorem lookup_error_without_result_panics :
  scripted_main [ {| threats := []; err := Some "boom" |} ]
    "k" "" (stdin_of ["http://x.test"; "https://google.com"]) =
  {| trace :=
       [Scan "http://x.test";
        Lookup ["http://x.test"] {| threats := []; err := Some "boom" |};
        Stderr "Lookup error: boom"];
     codes := [0; 0];
     status := Panic |}
  /\ ~ documented
       (status
          (scripted_main [ {| threats := []; err := Some "boom" |} ]
             "k" "" (stdin_of ["http://x.test"; "https://google.com"]))).
Proof. split; [reflexivity|]. cbn. tauto. Qed.

(** C5. On an input stream whose read fails at once, the run writes the
    diagnostic "Unable to read input: read failed" on standard error
    after the loop and ends by [os.Exit(0)], not with exit code 128. *)
Theorem read_failure_exits_zero :
  scripted_main [] "k" "" {| pending := []; failure := Some "read failed" |} =
  {| trace := [Stderr "Unable to read input: read failed"];
     codes := [0; 0];
     status := Exit 0 |}.
Proof. reflexivity. Qed.



(** C9, as first stated, fails: a run that passes start-up and whose
    second lookup comes back without a result list does not end by
    [os.Exit(0)]; it panics. *)
Lemma started_run_may_panic :
  starts (list response)
    (fun _ => inl [ {| threats := [[]]; err := None |};
                    {| threats := []; err := Some "boom" |} ]) "k" ""
  /\ status
       (scripted_main
          [ {| threats := [[]]; err := None |};
            {| threats := []; err := Some "boom" |} ]
          "k" "" (stdin_of ["https://google.com"; "http://x.test"]))
     <> Exit 0.
Proof. split; [apply scripted_starts, key_given | discriminate]. Qed.

(** ** The theorems at concrete runs *)

Lemma safe_url_keeps_outcome_witness :
  let R := scripted_main two_safe "k" "" (stdin_of ["https://google.com"; ""]) in
  (forallb safe_response (responses_of (trace R)) = true
   /\ status R = Exit 0
   /\ stdout_of (trace R) = ["Safe URL: https://google.com"; "Safe URL: "])
  /\ loop (list response) scripted_lookup two_safe ["https://google.com"] 7 =
     Next 7 [ {| threats := [[]]; err := None |} ]
       [Scan "https://google.com";
        Lookup ["https://google.com"] {| threats := [[]]; err := None |};
        Stdout "Safe URL: https://google.com"] []
  /\ status (scripted_main [] "k" "" (stdin_of [])) = Exit 0.
Proof.
  destruct (safe_url_keeps_outcome (fun _ => inl two_safe) scripted_lookup)
    as (H1 & H2 & _).
  destruct (safe_url_keeps_outcome (fun _ => inl []) scripted_lookup)
    as (_ & _ & H3).
  cbn zeta. split; [|split].
  - split; [reflexivity|].
    apply (H2 "k" "" (stdin_of ["https://google.com"; ""])).
    + apply scripted_starts, key_given.
    + reflexivity.
  - rewrite (H1 two_safe 7 "https://google.com" []); reflexivity.
  - unfold scripted_main.
    rewrite (H3 "k" "" (scripted_starts [] "k" "" key_given)). reflexivity.
Defined.

Lemma error_does_not_skip_verdict_witness :
  scripted_lookup failed_then_unsafe ["http://bad1url.org"] =
    ({| threats := [[malware]]; err := Some "boom" |},
     [ {| threats := [[malware]]; err := None |} ])
  /\ loop (list response) scripted_lookup failed_then_unsafe
       ["http://bad1url.org"] 0 =
     Next 0 [ {| threats := [[malware]]; err := None |} ]
       [Scan "http://bad1url.org";
        Lookup ["http://bad1url.org"]
          {| threats := [[malware]]; err := Some "boom" |};
        Stderr "Lookup error: boom";
        Stdout "Unsafe URL: [{bad1url.org {MALWARE ANY_PLATFORM URL_EXPRESSION}}]"]
       [0; 0].
Proof.
  split; [reflexivity|].
  rewrite (error_does_not_skip_verdict scripted_lookup failed_then_unsafe
             [ {| threats := [[malware]]; err := None |} ] 0
             "http://bad1url.org" [] "boom" malware [] []);
    reflexivity.
Defined.

Lemma startup_failure_is_fatal_witness :
  (let R := scripted_main two_safe "" "" (stdin_of ["https://google.com"]) in
   status R = Exit 1 /\ trace R = [Stderr "No -apikey specified"])
  /\ (let R := main (list response) (fun _ => inr "invalid key") scripted_lookup
                 "k" "" (stdin_of ["https://google.com"]) in
      status R = Exit 1
      /\ stdout_of (trace R) = []
      /\ lookups_of (trace R) = []).
Proof.
  split; cbn zeta.
  - destruct (startup_failure_is_fatal (fun _ => inl two_safe) scripted_lookup
                "" "" (stdin_of ["https://google.com"]))
      as (Hx & _); [now left|].
    split; [exact Hx | reflexivity].
  - destruct (startup_failure_is_fatal (fun _ => inr "invalid key")
                scripted_lookup "k" "" (stdin_of ["https://google.com"]))
      as (Hx & _ & Hl & Ho & _); [right; now exists "invalid key"|].
    now repeat split.
Defined.

Lemma stdout_in_input_order_witness :
  let R := scripted_main failed_then_unsafe "k" ""
             (stdin_of ["http://bad1url.org"; "http://bad1url.org"; ""]) in
  starts (list response) (fun _ => inl failed_then_unsafe) "k" ""
  /\ scans_of (trace R) = ["http://bad1url.org"; "http://bad1url.org"; ""]
  /\ stdout_of (trace R) =
     flat_map verdict_lines
       (combine (scans_of (trace R)) (responses_of (trace R))).
Proof.
  cbn zeta. split; [apply scripted_starts, key_given|].
  destruct (stdout_in_input_order (fun _ => inl failed_then_unsafe)
              scripted_lookup "k" ""
              (stdin_of ["http://bad1url.org"; "http://bad1url.org"; ""])
              (scripted_starts failed_then_unsafe "k" "" key_given))
    as (_ & [Hp|Hs] & _ & Ho & _).
  - discriminate Hp.
  - split; [exact Hs | exact Ho].
Defined.

Lemma code_stays_zero_witness :
  let R := scripted_main failed_then_unsafe "k" ""
             {| pending := ["http://bad1url.org"; "http://bad1url.org"];
                failure := Some "read failed" |} in
  starts (list response) (fun _ => inl failed_then_unsafe) "k" ""
  /\ forallb has_result (responses_of (trace R)) = true
  /\ Forall (eq 0) (codes R)
  /\ status R = Exit 0.
Proof.
  cbn zeta. split; [apply scripted_starts, key_given|].
  split; [reflexivity|].
  destruct (code_stays_zero (fun _ => inl failed_then_unsafe) scripted_lookup
              "k" ""
              {| pending := ["http://bad1url.org"; "http://bad1url.org"];
                 failure := Some "read failed" |}
              (scripted_starts failed_then_unsafe "k" "" key_given))
    as (_ & Hz & Hx).
  split; [exact Hz | apply Hx; reflexivity].
Defined.

(** ** Further properties of the loop and of whole runs *)

Lemma verdict_count (us : list string) : forall rs,
  length rs = length us ->
  length (flat_map verdict_lines (combine us rs)) =
  length (filter has_result rs).
Proof.
  induction us as [|u us IH]; intros [|r rs] Hl; cbn in *;
    try discriminate; [reflexivity|].
  rewrite length_app, IH by now injection Hl.
  unfold verdict_lines, has_result. cbn.
  destruct (threats r) as [|[|t ts] ths]; reflexivity.
Qed.

Lemma filter_all {A} (f : A -> bool) (l : list A) :
  forallb f l = true -> filter f l = l.
Proof.
  induction l as [|a l IH]; cbn; [reflexivity|].
  intros H. apply andb_true_iff in H as [Ha Hl].
  now rewrite Ha, IH.
Qed.

Lemma verdict_line_kind it :
  Forall (fun l => xorb (is_safe_line l) (is_unsafe_line l) = true)
         (verdict_lines it).
Proof.
  unfold verdict_lines, is_safe_line, is_unsafe_line.
  destruct (threats (snd it)) as [|[|t ts] ths]; constructor;
    try constructor.
  now destruct (fst it).
Qed.

Section Runs.

Context {S : Type}.
Variable NewSafeBrowser : Config -> S + error.
Variable LookupURLs : S -> list string -> response * S.

Local Abbreviation body := (body S LookupURLs).
Local Abbreviation loop := (loop S LookupURLs).
Local Abbreviation main := (main S NewSafeBrowser LookupURLs).
Local Abbreviation starts := (starts S NewSafeBrowser).

(** One iteration, case by case on what the client answers. *)
Ltac body_cases sb u :=
  unfold body;
  let E := fresh "E" in
  destruct (LookupURLs sb [u]) as [[[|[|? ?] ?] [?|]] ?] eqn:E;
  cbn [error_block verdict_block threats err length Nat.eqb].

Lemma loop_stderr ls : forall sb code,
  stderr_of (events_of (loop sb ls code)) =
  flat_map error_lines (responses_of (events_of (loop sb ls code))).
Proof.
  induction ls as [|u ls IH]; intros sb code; [reflexivity|].
  cbn [loop]. body_cases sb u; autorewrite with proj;
    try rewrite IH; reflexivity.
Qed.

Lemma loop_calls ls : forall sb code,
  lookups_of (events_of (loop sb ls code)) =
  calls LookupURLs sb (scans_of (events_of (loop sb ls code))).
Proof.
  induction ls as [|u ls IH]; intros sb code; [reflexivity|].
  cbn [loop]. body_cases sb u; autorewrite with proj;
    cbn; rewrite E; try rewrite IH; reflexivity.
Qed.

(** X8. What the loop does never depends on the value of [code]: from
    two values of [code] the loop scans, looks up and prints the same
    things, panics or not alike, and leaves the client in the same
    state. *)
Theorem loop_io_independent_of_code ls : forall sb c1 c2,
  events_of (loop sb ls c1) = events_of (loop sb ls c2)
  /\ crashed (loop sb ls c1) = crashed (loop sb ls c2)
  /\ client_of sb (loop sb ls c1) = client_of sb (loop sb ls c2).
Proof.
  induction ls as [|u ls IH]; intros sb c1 c2; [now repeat split|].
  cbn [loop]. body_cases sb u; try (now repeat split);
    match goal with
    | |- context [prepend _ _ (loop ?sb' ls ?a)] =>
        match goal with
        | |- context [prepend _ _ (loop sb' ls ?b)] =>
            destruct (IH sb' a b) as (He & Hc & Hs);
            destruct (loop sb' ls a), (loop sb' ls b);
            cbn in *; try discriminate; subst; now repeat split
        end
    end.
Qed.

Lemma loop_crash_shape ls : forall sb code,
  crashed (loop sb ls code) = true ->
  exists good bad,
    responses_of (events_of (loop sb ls code)) = (good ++ [bad])%list
    /\ forallb has_result good = true
    /\ has_result bad = false.
Proof.
  induction ls as [|u ls IH]; intros sb code; [discriminate|].
  cbn [loop].
  destruct (body_shape LookupURLs sb code u) as (_ & Hl & _ & _ & Hc).
  cbn zeta in *. set (r := fst (LookupURLs sb [u])) in *.
  assert (Hr : responses_of (events_of (body sb code u)) = [r])
    by (unfold responses_of; now rewrite Hl).
  destruct (body sb code u) as [c1 sb1 e1 cs1|e1 cs1];
    cbn [events_of crashed] in Hr, Hc.
  - autorewrite with proj. intros H.
    destruct (IH sb1 c1 H) as (good & bad & Hg & Hgood & Hbad).
    exists (r :: good), bad. rewrite Hr, Hg. cbn.
    symmetry in Hc. apply negb_false_iff in Hc. rewrite Hc.
    now repeat split.
  - intros _. exists [], r. cbn [events_of]. rewrite Hr.
    symmetry in Hc. apply negb_true_iff in Hc. now repeat split.
Qed.

(** A run that passes start-up, in terms of its loop. *)
Lemma main_by_loop k db stdin sb :
  k <> "" ->
  NewSafeBrowser {| APIKey := k; DBPath := db |} = inl sb ->
  let f := loop sb (pending stdin) 0 in
  trace (main k db stdin) =
    (events_of f ++ (if crashed f then [] else trace (finish 0 stdin)))%list
  /\ status (main k db stdin) = (if crashed f then Panic else Exit 0).
Proof.
  intros Hk Hn. cbn zeta.
  rewrite (main_started NewSafeBrowser LookupURLs _ _ _ _ Hk Hn).
  destruct (loop_zero LookupURLs (pending stdin) sb) as [_ Hz].
  destruct (loop sb (pending stdin) 0) as [c sb' evs cs|evs cs];
    cbn [events_of crashed code_of trace status] in *.
  - subst c. split; [reflexivity|].
    unfold finish. now destruct (failure stdin).
  - now rewrite app_nil_r.
Qed.

Lemma finish_quiet c stdin :
  scans_of (trace (finish c stdin)) = []
  /\ lookups_of (trace (finish c stdin)) = []
  /\ stdout_of (trace (finish c stdin)) = []
  /\ stderr_of (trace (finish c stdin)) =
     match failure stdin with
     | Some e => ["Unable to read input: " ++ e]
     | None => []
     end.
Proof. unfold finish. now destruct (failure stdin). Qed.

(** Start-up either yields a client, or ends the run whatever the input. *)
Lemma startup_cases k db :
  (k <> "" /\ exists sb,
      NewSafeBrowser {| APIKey := k; DBPath := db |} = inl sb)
  \/ ((k = "" \/ exists e,
         NewSafeBrowser {| APIKey := k; DBPath := db |} = inr e)
      /\ exists line, forall stdin, main k db stdin = fatal line).
Proof.
  unfold main. destruct (String.eqb_spec k "") as [E|N].
  - right. split; [now left|]. now eexists.
  - destruct (NewSafeBrowser {| APIKey := k; DBPath := db |}) as [sb|e].
    + left. split; [assumption|]. now exists sb.
    + right. split; [right; now exists e|]. now eexists.
Qed.

(** X1. In a run that passes start-up every lookup is a call for the
    single line just scanned, passed as it was read; the lines scanned
    are looked up one by one in that order, each on the state of the
    client that the previous call left, and nothing else is looked up. *)
Theorem lookups_follow_the_lines k db stdin sb :
  k <> "" ->
  NewSafeBrowser {| APIKey := k; DBPath := db |} = inl sb ->
  lookups_of (trace (main k db stdin)) =
  calls LookupURLs sb (scans_of (trace (main k db stdin))).
Proof.
  intros Hk Hn.
  destruct (main_by_loop k db stdin sb Hk Hn) as [Ht _]. cbn zeta in Ht.
  rewrite Ht. autorewrite with proj.
  destruct (finish_quiet 0 stdin) as (Fs & Fl & _).
  rewrite loop_calls.
  destruct (crashed (loop sb (pending stdin) 0)); cbn [scans_of lookups_of flat_map];
    now rewrite ?Fs, ?Fl, !app_nil_r.
Qed.

(** X2. The diagnostics that [main] itself writes on standard error in a
    run that passes start-up are one line "Lookup error: <error>" for each
    lookup that returned an error, in the order of the lookups, followed
    by the line "Unable to read input: <error>" when the loop has ended
    without a panic and the scanner reports a read error; [main] writes
    no other line there.  What the client logs through its [Logger] and
    what the run-time system reports on a panic are not lines of [main]
    and are not counted. *)
Theorem main_diagnostics_account_for_failures k db stdin :
  starts k db ->
  stderr_of (trace (main k db stdin)) =
  (flat_map error_lines (responses_of (trace (main k db stdin)))
   ++ match status (main k db stdin), failure stdin with
      | Exit _, Some e => [("Unable to read input: " ++ e)%string]
      | _, _ => []
      end)%list.
Proof.
  intros [Hk [sb Hn]].
  destruct (main_by_loop k db stdin sb Hk Hn) as [Ht Hs]. cbn zeta in *.
  rewrite Ht, Hs. autorewrite with proj. rewrite loop_stderr.
  destruct (finish_quiet 0 stdin) as (_ & Fl & _ & Fe).
  destruct (crashed (loop sb (pending stdin) 0)).
  - cbn. now rewrite !app_nil_r.
  - unfold responses_of at 3. rewrite Fl, Fe. cbn [map].
    now rewrite app_nil_r.
Qed.

(** X3. How a run ends: by [os.Exit(1)] exactly when start-up fails;
    otherwise by [os.Exit(0)] when every lookup made returned a result
    list with an entry, and by a panic when one did not.  In particular
    no run ends with exit code 128. *)
Theorem exit_status_by_cases k db stdin :
  let R := main k db stdin in
  (((k = "" \/ exists e,
       NewSafeBrowser {| APIKey := k; DBPath := db |} = inr e)
    /\ status R = Exit 1)
   \/ (starts k db
       /\ forallb has_result (responses_of (trace R)) = true
       /\ status R = Exit 0)
   \/ (starts k db
       /\ forallb has_result (responses_of (trace R)) = false
       /\ status R = Panic))
  /\ status R <> Exit 128.
Proof.
  cbn zeta.
  destruct (startup_cases k db) as [Hst|[Hf [line Hl]]].
  - destruct (main_shape NewSafeBrowser LookupURLs k db stdin Hst)
      as (_ & _ & _ & _ & Hx & _). cbn zeta in Hx.
    destruct (forallb has_result (responses_of (trace (main k db stdin))))
      eqn:E; rewrite Hx; split; try discriminate.
    + right; left. now repeat split.
    + right; right. now repeat split.
  - rewrite Hl. cbn. split; [|discriminate]. left. now split.
Qed.

(** X4. When a run that passes start-up panics, it does so on the first
    lookup that returns no result list: that lookup is the last one made,
    every earlier one had a result, the line it was made for is the last
    one scanned, and standard output holds one line for each of the
    earlier lines and none for this one. *)
Theorem panic_at_first_missing_result k db stdin :
  starts k db ->
  status (main k db stdin) = Panic ->
  exists good bad,
    responses_of (trace (main k db stdin)) = (good ++ [bad])%list
    /\ forallb has_result good = true
    /\ has_result bad = false
    /\ scans_of (trace (main k db stdin)) =
       firstn (Datatypes.S (length good)) (pending stdin)
    /\ length (stdout_of (trace (main k db stdin))) = length good.
Proof.
  intros Hst Hp.
  destruct (main_shape NewSafeBrowser LookupURLs k db stdin Hst)
    as (_ & Hs & Hl & Ho & _). cbn zeta in *.
  apply lookups_aligned in Hl.
  destruct Hst as [Hk [sb Hn]].
  destruct (main_by_loop k db stdin sb Hk Hn) as [Ht Hx]. cbn zeta in *.
  destruct (crashed (loop sb (pending stdin) 0)) eqn:Hc;
    [|rewrite Hx in Hp; discriminate].
  destruct (loop_crash_shape (pending stdin) sb 0 Hc)
    as (good & bad & Hg & Hgood & Hbad).
  rewrite app_nil_r in Ht. rewrite <- Ht in Hg.
  exists good, bad. repeat split; auto.
  - rewrite Hs at 1. f_equal. rewrite <- Hl, Hg, length_app. cbn. lia.
  - rewrite Ho, verdict_count by assumption.
    rewrite Hg, filter_app, (filter_all _ _ Hgood). cbn. rewrite Hbad.
    now rewrite app_nil_r.
Qed.

(** X5. Output is produced line by line: what a run does on the input
    lines [l1] followed by a clean end of stream is an initial segment of
    what it does on any longer input [l1 ++ l2], however that one ends. *)
Theorem trace_extends_with_input k db l1 l2 f :
  exists rest,
    trace (main k db {| pending := l1 ++ l2; failure := f |}) =
    (trace (main k db (stdin_of l1)) ++ rest)%list.
Proof.
  destruct (startup_cases k db) as [[Hk [sb Hn]]|[_ [line Hl]]].
  - rewrite !(main_started NewSafeBrowser LookupURLs _ _ _ _ Hk Hn).
    cbn [pending stdin_of]. rewrite loop_app.
    destruct (loop sb l1 0) as [c sb' evs cs|evs cs]; cbn [trace].
    + destruct (loop sb' l2 c) as [c2 sb2 evs2 cs2|evs2 cs2];
        cbn [prepend trace finish failure stdin_of];
        rewrite app_nil_r, <- ?app_assoc; now eexists.
    + exists []. now rewrite app_nil_r.
  - rewrite !Hl. exists []. now rewrite app_nil_r.
Qed.

(** X6. Every line a run writes on standard output is a verdict: it
    starts with "Safe URL: " or with "Unsafe URL: ", never with both. *)
Theorem stdout_lines_are_verdicts k db stdin :
  Forall (fun l => xorb (is_safe_line l) (is_unsafe_line l) = true)
         (stdout_of (trace (main k db stdin))).
Proof.
  destruct (startup_cases k db) as [Hst|[_ [line Hl]]].
  - destruct (main_shape NewSafeBrowser LookupURLs k db stdin Hst)
      as (_ & _ & _ & Ho & _). cbn zeta in Ho. rewrite Ho.
    apply Forall_flat_map, Forall_forall. intros it _.
    apply verdict_line_kind.
  - rewrite Hl. constructor.
Qed.

(** X7. A run that ends by [os.Exit(0)] after start-up has scanned every
    input line, made one lookup for each and written one stdout line for
    each, whether the lookup returned an error or not. *)
Theorem one_verdict_per_line k db stdin :
  starts k db ->
  status (main k db stdin) = Exit 0 ->
  scans_of (trace (main k db stdin)) = pending stdin
  /\ length (lookups_of (trace (main k db stdin))) = length (pending stdin)
  /\ length (stdout_of (trace (main k db stdin))) = length (pending stdin).
Proof.
  intros Hst Hx.
  destruct (main_shape NewSafeBrowser LookupURLs k db stdin Hst)
    as (_ & _ & Hl & Ho & Hs & Hf). cbn zeta in *.
  assert (Hsc : scans_of (trace (main k db stdin)) = pending stdin)
    by (apply Hf; rewrite Hx; discriminate).
  pose proof (lookups_aligned _ Hl) as Hlen.
  assert (Hall : forallb has_result
                   (responses_of (trace (main k db stdin))) = true).
  { destruct (forallb has_result _); [reflexivity|].
    rewrite Hx in Hs. discriminate. }
  repeat split.
  - exact Hsc.
  - unfold responses_of in Hlen. rewrite length_map in Hlen.
    now rewrite Hlen, Hsc.
  - rewrite Ho, verdict_count by assumption.
    now rewrite (filter_all _ _ Hall), Hlen, Hsc.
Qed.

(** X9. A URL whose lookup succeeds with a non-empty match list prints
    exactly the stdout line "Unsafe URL: <matches>", the matches rendered
    in full and in the order the client returned them, applies the guarded
    update of the unsafe branch to [code], and the loop goes on with the
    next line. *)
Theorem unsafe_url_prints_matches sb sb' code url rest t ts ths :
  LookupURLs sb [url] =
    ({| threats := (t :: ts) :: ths; err := None |}, sb') ->
  loop sb (url :: rest) code =
  prepend
    [Scan url;
     Lookup [url] {| threats := (t :: ts) :: ths; err := None |};
     Stdout ("Unsafe URL: [" ++
             String.concat " " (map show_threat (t :: ts)) ++ "]")]
    [unsafe_code code]
    (loop sb' rest (unsafe_code code)).
Proof.
  intros H. cbn [loop]. unfold body. rewrite H. reflexivity.
Qed.

End Runs.

(** ** The further properties at concrete runs *)

Lemma lookups_follow_the_lines_witness :
  let R := scripted_main failed_then_unsafe "k" "" two_lines_then_read_error in
  "k" <> ""
  /\ lookups_of (trace R) =
     [ (["http://bad1url.org"], {| threats := [[malware]]; err := Some "boom" |});
       (["http://bad1url.org"], {| threats := [[malware]]; err := None |}) ].
Proof.
  cbn zeta. split; [exact key_given|].
  unfold scripted_main.
  rewrite (lookups_follow_the_lines (fun _ => inl failed_then_unsafe)
             scripted_lookup "k" "" two_lines_then_read_error
             failed_then_unsafe key_given eq_refl).
  reflexivity.
Defined.

Lemma main_diagnostics_account_for_failures_witness :
  let R := scripted_main failed_then_unsafe "k" "" two_lines_then_read_error in
  starts (list response) (fun _ => inl failed_then_unsafe) "k" ""
  /\ stderr_of (trace R) =
     ["Lookup error: boom"; "Unable to read input: read failed"].
Proof.
  cbn zeta. split; [apply scripted_starts, key_given|].
  unfold scripted_main.
  rewrite (main_diagnostics_account_for_failures (fun _ => inl failed_then_unsafe)
             scripted_lookup "k" "" two_lines_then_read_error
             (scripted_starts failed_then_unsafe "k" "" key_given)).
  reflexivity.
Defined.

Lemma panic_at_first_missing_result_witness :
  let R := scripted_main safe_then_missing "k" "" three_lines in
  starts (list response) (fun _ => inl safe_then_missing) "k" ""
  /\ status R = Panic
  /\ exists good bad,
       responses_of (trace R) = (good ++ [bad])%list
       /\ forallb has_result good = true
       /\ has_result bad = false
       /\ scans_of (trace R) =
          firstn (Datatypes.S (length good)) (pending three_lines)
       /\ length (stdout_of (trace R)) = length good.
Proof.
  cbn zeta. split; [apply scripted_starts, key_given|].
  split; [reflexivity|].
  apply (panic_at_first_missing_result (fun _ => inl safe_then_missing)
           scripted_lookup "k" "" three_lines
           (scripted_starts safe_then_missing "k" "" key_given)).
  reflexivity.
Defined.

Lemma one_verdict_per_line_witness :
  let R := scripted_main failed_then_unsafe "k" "" three_lines in
  starts (list response) (fun _ => inl failed_then_unsafe) "k" ""
  /\ status R = Exit 0
  /\ scans_of (trace R) = pending three_lines
  /\ length (lookups_of (trace R)) = 3%nat
  /\ length (stdout_of (trace R)) = 3%nat.
Proof.
  cbn zeta. split; [apply scripted_starts, key_given|].
  split; [reflexivity|].
  apply (one_verdict_per_line (fun _ => inl failed_then_unsafe)
           scripted_lookup "k" "" three_lines
           (scripted_starts failed_then_unsafe "k" "" key_given)).
  reflexivity.
Defined.

Lemma unsafe_url_prints_matches_witness :
  scripted_lookup [ {| threats := [[malware; malware]]; err := None |} ]
    ["http://bad1url.org"] =
    ({| threats := [[malware; malware]]; err := None |}, [])
  /\ loop (list response) scripted_lookup
       [ {| threats := [[malware; malware]]; err := None |} ]
       ["http://bad1url.org"] 128 =
     Next 1 []
       [Scan "http://bad1url.org";
        Lookup ["http://bad1url.org"]
          {| threats := [[malware; malware]]; err := None |};
        Stdout ("Unsafe URL: [{bad1url.org {MALWARE ANY_PLATFORM URL_EXPRESSION}} "
                ++ "{bad1url.org {MALWARE ANY_PLATFORM URL_EXPRESSION}}]")]
       [1].
Proof.
  split; [reflexivity|].
  rewrite (unsafe_url_prints_matches scripted_lookup
             [ {| threats := [[malware; malware]]; err := None |} ] []
             128 "http://bad1url.org" [] malware [malware] []);
    reflexivity.
Defined.
